(** * fibonacci.c: the Fibonacci test utility of the PySys examples

    A shallow embedding of
    [pysys-examples/fibonacci/utilities/src/fibonacci.c] and the
    properties of its observable behaviour: what it writes to standard
    output and standard error, which cells of the [malloc]ed block it
    touches, and how it exits.

    The program is embedded for the LP64 data model (64-bit Darwin and
    Linux): [int] has 32 bits, [long] and [size_t] have 64 bits. *)

From Stdlib Require Import ZArith Ascii String DecimalString Decimal.
From Stdlib Require Import DecimalN DecimalZ.
From stdpp Require Import base tactics option list numbers strings gmap.

Local Open Scope Z_scope.

#[local] Arguments String.append !s1 s2 : simpl nomatch.

(** ** Machine integers *)

Module Machine.

Definition int_bits : Z := 32.
Definition long_bits : Z := 64.
Definition size_bits : Z := 64.
Definition sizeof_long : Z := 8.

(** Two's complement value of the low [w] bits of [x]. *)
Definition wrap_signed (w x : Z) : Z :=
  (x + 2 ^ (w - 1)) mod 2 ^ w - 2 ^ (w - 1).

Definition wrap_unsigned (w x : Z) : Z := x mod 2 ^ w.

Definition to_int (x : Z) : Z := wrap_signed int_bits x.
Definition to_long (x : Z) : Z := wrap_signed long_bits x.
Definition to_ulong (x : Z) : Z := wrap_unsigned long_bits x.
Definition to_size (x : Z) : Z := wrap_unsigned size_bits x.

Definition LONG_MAX : Z := 2 ^ (long_bits - 1) - 1.
Definition LONG_MIN : Z := - 2 ^ (long_bits - 1).
Definition PTRDIFF_MAX : Z := 2 ^ (size_bits - 1) - 1.

(** [a + b] and [a - b] on [long] operands. *)
Definition long_add (a b : Z) : Z := to_long (a + b).
Definition long_sub (a b : Z) : Z := to_long (a - b).

End Machine.
Export Machine.

(** ** The C library functions the program calls *)

Module Libc.

Definition newline : string := String "010"%char EmptyString.

(** [isspace] in the C locale. *)
Definition isspace (c : ascii) : bool :=
  let n := Z.of_nat (nat_of_ascii c) in
  (n =? 32) || ((9 <=? n) && (n <=? 13)).

Definition digit_of (c : ascii) : option Z :=
  let n := Z.of_nat (nat_of_ascii c) in
  if (48 <=? n) && (n <=? 57) then Some (n - 48) else None.

Fixpoint skip_spaces (s : string) : string :=
  match s with
  | String c r => if isspace c then skip_spaces r else s
  | EmptyString => s
  end.

(** The value of the longest prefix of decimal digits, after [acc]. *)
Fixpoint digits_value (acc : Z) (s : string) : Z :=
  match s with
  | String c r =>
      match digit_of c with
      | Some d => digits_value (10 * acc + d) r
      | None => acc
      end
  | EmptyString => acc
  end.

(** [strtol(s, NULL, 10)]: white space, an optional sign, digits; the
    result saturates at the ends of [long]. *)
Definition strtol (s : string) : Z :=
  let v :=
    match skip_spaces s with
    | String "-"%char r => - digits_value 0 r
    | String "+"%char r => digits_value 0 r
    | r => digits_value 0 r
    end in
  Z.max LONG_MIN (Z.min LONG_MAX v).

(** [atoi(s)] is [(int) strtol(s, NULL, 10)]. *)
Definition atoi (s : string) : Z := to_int (strtol s).

(** The conversion [%lu]: the argument read as an [unsigned long]. *)
Definition fmt_lu (x : Z) : string :=
  NilZero.string_of_uint (N.to_uint (Z.to_N (to_ulong x))).

(** The conversion [%d]: the argument read as an [int]. *)
Definition fmt_d (x : Z) : string :=
  NilZero.string_of_int (Z.to_int (to_int x)).

(** The conversion [%s] of [argv[k]]; a null pointer prints as
    [(null)]. *)
Definition fmt_s_arg (argv : list string) (k : nat) : string :=
  nth k argv "(null)".

End Libc.
Export Libc.

(** ** Program state, events and the execution monad *)

Inductive stream := stdout | stderr.

Inductive event :=
| EvMalloc (bytes : Z)
| EvStore (idx : Z) (v : Z)
| EvLoad (idx : Z)
| EvWrite (f : stream) (s : string).

(** What [malloc] returns: the null pointer, or a pointer to the block. *)
Inductive pointer := NULL | Block.

(** [block] holds the cells of the block that was asked for, [fib[0]]
    up to [fib[n-1]]; it is empty when [malloc] returned a null pointer
    or a block of size zero.  [outside] holds the cells [fib[i]] outside
    of the block that the program has stored to.  [log] is the history
    of the run, oldest event first. *)
Record state :=
  mkState { block : list Z; outside : gmap Z Z; log : list event }.

Definition initial : state := {| block := []; outside := ∅; log := [] |}.

Definition record (e : event) (s : state) : state :=
  {| block := block s; outside := outside s; log := log s ++ [e] |}.

(** A run either completes with a value or stops at an access through
    the null pointer. *)
Inductive outcome (A : Type) :=
| Ok (a : A) (s : state)
| Fault (s : state).
Arguments Ok {A} a s.
Arguments Fault {A} s.

Definition M (A : Type) : Type := state → outcome A.

Global Instance M_ret : MRet M := λ A a s, Ok a s.
Global Instance M_bind : MBind M := λ A B k m s,
  match m s with
  | Ok a s' => k a s'
  | Fault s' => Fault s'
  end.

Definition final_state {A} (o : outcome A) : state :=
  match o with Ok _ s => s | Fault s => s end.

(** [malloc(bytes)] for an array of [long].  A request above
    [PTRDIFF_MAX] fails and gives the null pointer; the heap is taken to
    be large enough for any other request.  Memory holds whatever was
    left there, [junk i] at the place of [fib[i]], until the program
    stores to it. *)
Definition malloc (junk : Z → Z) (bytes : Z) : M pointer := λ s,
  let s' := record (EvMalloc bytes) s in
  if bytes <=? PTRDIFF_MAX then
    Ok Block
       {| block := (λ k : nat, to_long (junk (Z.of_nat k)))
                     <$> seq 0 (Z.to_nat (bytes / sizeof_long));
          outside := outside s; log := log s' |}
  else Ok NULL s'.

Definition in_block (idx : Z) (s : state) : bool :=
  (0 <=? idx) && (idx <? Z.of_nat (length (block s))).

(** The content of [fib[idx]]: a cell of the block, or else what was
    stored outside of it, or else what was left there. *)
Definition cell (junk : Z → Z) (idx : Z) (s : state) : Z :=
  match (if 0 <=? idx then block s !! Z.to_nat idx else None) with
  | Some v => v
  | None => default (to_long (junk idx)) (outside s !! idx)
  end.

(** [fib[idx]] as an rvalue.  Nothing tests the index; only the null
    pointer stops the run. *)
Definition load (junk : Z → Z) (fib : pointer) (idx : Z) : M Z := λ s,
  let s' := record (EvLoad idx) s in
  match fib with
  | NULL => Fault s'
  | Block => Ok (cell junk idx s) s'
  end.

(** [fib[idx] = v].  Nothing tests the index: a store outside of the
    block goes to the memory next to it and the run goes on; only the
    null pointer stops the run. *)
Definition store (fib : pointer) (idx v : Z) : M unit := λ s,
  let s' := record (EvStore idx v) s in
  match fib with
  | NULL => Fault s'
  | Block =>
      if in_block idx s then
        Ok tt {| block := <[Z.to_nat idx := v]> (block s);
                 outside := outside s; log := log s' |}
      else
        Ok tt {| block := block s;
                 outside := <[idx := v]> (outside s); log := log s' |}
  end.

(** [fprintf(f, ...)], the format already expanded to [text]. *)
Definition fprintf (f : stream) (text : string) : M unit := λ s,
  Ok tt (record (EvWrite f text) s).

(** [for (i = lo; i < hi; i++) body], for a body that assigns neither
    [i] nor [hi]: the test holds [hi - lo] times (not at all when
    [hi <= lo]), for [i = lo], [lo + 1], ... *)
Fixpoint for_count (n : nat) (i : Z) (body : Z → M unit) : M unit :=
  match n with
  | O => mret tt
  | S k => body i ;; for_count k (long_add i 1) body
  end.

Definition for_lt (lo hi : Z) (body : Z → M unit) : M unit :=
  for_count (Z.to_nat (hi - lo)) lo body.

(** ** The program *)

Definition fill_body (junk : Z → Z) (fib : pointer) (i : Z) : M unit :=
  fprintf stderr ("Calculating index " +:+ fmt_d i +:+ newline) ;;
  a ← load junk fib (long_sub i 1);
  b ← load junk fib (long_sub i 2);
  store fib i (long_add a b).

Definition print_body (junk : Z → Z) (fib : pointer) (i : Z) : M unit :=
  v ← load junk fib i;
  fprintf stdout (fmt_lu v +:+ newline).

Definition main (junk : Z → Z) (argv : list string) : M Z :=
  let argc := Z.of_nat (length argv) in
  (if argc =? 2 then
     let max_index := atoi (nth 1 argv "") in
     fib ← malloc junk (to_size (to_size max_index * sizeof_long));
     store fib 0 0 ;;
     store fib 1 1 ;;
     for_lt 2 max_index (fill_body junk fib) ;;
     for_lt 0 max_index (print_body junk fib)
   else
     fprintf stderr ("Usage: " +:+ fmt_s_arg argv 0 +:+ " <index>" +:+ newline)) ;;
  mret 0.

Definition run (junk : Z → Z) (argv : list string) : outcome Z :=
  main junk argv initial.


(** ** What a run shows to its environment *)

Definition is_newline (c : ascii) : bool := Ascii.eqb c "010"%char.

(** The complete lines of a stream, and the text after the last
    newline. *)
Fixpoint split_lines (s : string) : list string * string :=
  match s with
  | EmptyString => ([], EmptyString)
  | String c r =>
      let '(ls, tl) := split_lines r in
      if is_newline c then (EmptyString :: ls, tl)
      else match ls with
           | l :: ls' => (String c l :: ls', tl)
           | [] => ([], String c tl)
           end
  end.

Definition lines (s : string) : list string := (split_lines s).1.
Definition unterminated (s : string) : string := (split_lines s).2.

Definition unlines (ls : list string) : string :=
  foldr (λ l acc, l +:+ newline +:+ acc) EmptyString ls.

Definition stream_eqb (f g : stream) : bool :=
  match f, g with
  | stdout, stdout | stderr, stderr => true
  | _, _ => false
  end.

Definition text_on (f : stream) (e : event) : string :=
  match e with
  | EvWrite g s => if stream_eqb f g then s else EmptyString
  | _ => EmptyString
  end.

(** Everything written to stream [f] during a history. *)
Definition written (f : stream) (l : list event) : string :=
  foldr (λ e acc, text_on f e +:+ acc) EmptyString l.

Definition stdout_of {A} (o : outcome A) : string :=
  written stdout (log (final_state o)).
Definition stderr_of {A} (o : outcome A) : string :=
  written stderr (log (final_state o)).
Definition exit_status (o : outcome Z) : option Z :=
  match o with Ok a _ => Some a | Fault _ => None end.

(** The cell indices a history touches. *)
Definition access_index (e : event) : option Z :=
  match e with
  | EvStore i _ | EvLoad i => Some i
  | _ => None
  end.
Definition accesses (l : list event) : list Z := omap access_index l.

Definition is_digit (c : ascii) : bool :=
  match digit_of c with Some _ => true | None => false end.

Fixpoint all_digits (s : string) : bool :=
  match s with
  | EmptyString => true
  | String c r => is_digit c && all_digits r
  end.

(** A line that is one unsigned decimal integer and nothing else. *)
Definition is_decimal (s : string) : bool :=
  match s with EmptyString => false | _ => all_digits s end.

(** The number a line of digits denotes. *)
Definition line_value (s : string) : option Z :=
  (λ d, Z.of_N (N.of_uint d)) <$> NilZero.uint_of_string s.

(** The number on line [i] of stdout. *)
Definition stdout_value (o : outcome Z) (i : nat) : option Z :=
  lines (stdout_of o) !! i ≫= line_value.

Fixpoint no_newline (s : string) : bool :=
  match s with
  | EmptyString => true
  | String c r => negb (is_newline c) && no_newline r
  end.

(** The decimal numeral of an integer. *)
Definition decimal (x : Z) : string := NilZero.string_of_int (Z.to_int x).

Definition progress_line (i : Z) : string :=
  "Calculating index " +:+ fmt_d i.
Definition usage_line (prog : string) : string :=
  "Usage: " +:+ prog +:+ " <index>".

(** ** Reference sequences *)

(** Consecutive terms [(F n, F (n+1))] of the sequence that starts with
    [0], [1] and continues by [add]. *)
Fixpoint fib_pair (add : Z → Z → Z) (n : nat) : Z * Z :=
  match n with
  | O => (0, 1)
  | S k => let '(a, b) := fib_pair add k in (b, add b a)
  end.

(** The Fibonacci numbers. *)
Definition Fib (n : nat) : Z := (fib_pair Z.add n).1.

(** The Fibonacci numbers in [long] arithmetic. *)
Definition fibw (n : nat) : Z := (fib_pair long_add n).1.

Definition fill_events (i : nat) : list event :=
  [ EvWrite stderr (progress_line (Z.of_nat i) +:+ newline);
    EvLoad (Z.of_nat i - 1); EvLoad (Z.of_nat i - 2);
    EvStore (Z.of_nat i) (fibw i) ].

Definition print_events (i : nat) : list event :=
  [ EvLoad (Z.of_nat i); EvWrite stdout (fmt_lu (fibw i) +:+ newline) ].

Definition seed_events (n : Z) : list event :=
  [ EvMalloc (n * sizeof_long); EvStore 0 0; EvStore 1 1 ].

(** The seed stores that fall outside of a block of [n] cells. *)
Definition spilled_seeds (n : nat) : gmap Z Z :=
  match n with
  | O => <[1 := 1]> (<[0 := 0]> ∅)
  | S O => <[1 := 1]> ∅
  | _ => ∅
  end.

Definition history (n : nat) : list event :=
  seed_events (Z.of_nat n)
    ++ (seq 2 (n - 2) ≫= fill_events) ++ (seq 0 n ≫= print_events).

(** The lines the two loops write. *)
Definition printed (i : nat) : string := fmt_lu (fibw i).
Definition progress (i : nat) : string := progress_line (Z.of_nat i).

(** ** Reading a history *)

(** The stores of a history, oldest first: cell and value. *)
Definition store_of (e : event) : option (Z * Z) :=
  match e with
  | EvStore i v => Some (i, v)
  | _ => None
  end.
Definition stores (l : list event) : list (Z * Z) := omap store_of l.

(** The cells known to hold a stored value after event [e], given the
    ones known before it. *)
Definition note_store (seen : list Z) (e : event) : list Z :=
  match e with
  | EvStore i _ => i :: seen
  | _ => seen
  end.

(** Every load of the history reads a cell of [seen] or a cell that an
    earlier event of the history stored. *)
Fixpoint loads_follow_stores (seen : list Z) (l : list event) : bool :=
  match l with
  | [] => true
  | e :: l' =>
      match e with
      | EvLoad i => bool_decide (i ∈ seen)
      | _ => true
      end && loads_follow_stores (note_store seen e) l'
  end.

(** The events of the output phase: a load, or a write to stdout. *)
Definition is_print_event (e : event) : bool :=
  match e with
  | EvLoad _ | EvWrite stdout _ => true
  | _ => false
  end.

Definition is_stdout_write (e : event) : bool :=
  match e with
  | EvWrite stdout _ => true
  | _ => false
  end.

(** * Proofs *)

(** ** The recurrence of the reference sequences *)

Lemma fib_pair_step add n :
  (fib_pair add (S (S n))).1
  = add (fib_pair add (S n)).1 (fib_pair add n).1.
Proof. cbn [fib_pair]. by destruct (fib_pair add n). Qed.

Lemma Fib_step n : Fib (S (S n)) = Fib (S n) + Fib n.
Proof. apply fib_pair_step. Qed.

Lemma fibw_step n : fibw (S (S n)) = long_add (fibw (S n)) (fibw n).
Proof. apply fib_pair_step. Qed.

(** ** Machine integers: values in range are kept *)


Section MachineFacts.

Lemma to_long_small x : LONG_MIN ≤ x ≤ LONG_MAX → to_long x = x.
Proof.
  unfold to_long, wrap_signed, LONG_MIN, LONG_MAX, long_bits.
  intros H. rewrite Z.mod_small; lia.
Qed.

Lemma to_int_small x : - 2 ^ 31 ≤ x < 2 ^ 31 → to_int x = x.
Proof.
  unfold to_int, wrap_signed, int_bits.
  intros H. rewrite Z.mod_small; lia.
Qed.

Lemma to_int_range x : - 2 ^ 31 ≤ to_int x < 2 ^ 31.
Proof.
  unfold to_int, wrap_signed, int_bits.
  pose proof (Z.mod_pos_bound (x + 2 ^ (32 - 1)) (2 ^ 32)). lia.
Qed.

Lemma to_long_range x : LONG_MIN ≤ to_long x ≤ LONG_MAX.
Proof.
  unfold to_long, wrap_signed, LONG_MIN, LONG_MAX, long_bits.
  pose proof (Z.mod_pos_bound (x + 2 ^ (64 - 1)) (2 ^ 64)). lia.
Qed.

Lemma atoi_range s : - 2 ^ 31 ≤ atoi s < 2 ^ 31.
Proof. apply to_int_range. Qed.

Lemma request_size n :
  0 ≤ n < 2 ^ 31 → to_size (to_size n * sizeof_long) = n * sizeof_long.
Proof.
  unfold to_size, wrap_unsigned, size_bits, sizeof_long. intros H.
  rewrite (Z.mod_small n) by lia. rewrite Z.mod_small; lia.
Qed.

Lemma request_size_neg n :
  - 2 ^ 31 ≤ n < 0 →
  PTRDIFF_MAX < to_size (to_size n * sizeof_long).
Proof.
  unfold PTRDIFF_MAX, to_size, wrap_unsigned, size_bits, sizeof_long.
  intros H.
  replace (n mod 2 ^ 64) with (n + 2 ^ 64).
  2:{ apply Z.mod_unique with (q := -1); lia. }
  replace (((n + 2 ^ 64) * 8) mod 2 ^ 64) with (8 * n + 2 ^ 64).
  2:{ apply Z.mod_unique with (q := 7); lia. }
  change (64 - 1) with 63. lia.
Qed.

(** The unsigned reading of a [long] is its residue. *)
Lemma to_ulong_to_long x : to_ulong (to_long x) = x mod 2 ^ 64.
Proof.
  unfold to_ulong, to_long, wrap_unsigned, wrap_signed, long_bits.
  rewrite Zminus_mod_idemp_l.
  f_equal. lia.
Qed.

Lemma to_ulong_range x : 0 ≤ to_ulong x < 2 ^ 64.
Proof. apply Z.mod_pos_bound. lia. Qed.

End MachineFacts.

(** ** Text: lines and decimal numerals *)

Section TextFacts.

Lemma append_assoc (a b c : string) : (a +:+ b) +:+ c = a +:+ b +:+ c.
Proof. induction a as [|x a IH]; simpl; [done | by rewrite IH]. Qed.

Lemma append_empty_r (a : string) : a +:+ EmptyString = a.
Proof. induction a as [|x a IH]; simpl; [done | by rewrite IH]. Qed.

Lemma no_newline_append a b :
  no_newline a = true → no_newline b = true → no_newline (a +:+ b) = true.
Proof.
  intros Ha Hb. induction a as [|x a IH]; simpl in *; [done |].
  apply andb_true_iff in Ha as [Hx Ha]. rewrite Hx. simpl. auto.
Qed.

Lemma digit_not_newline c : is_digit c = true → is_newline c = false.
Proof.
  unfold is_newline. destruct (Ascii.eqb_spec c "010"%char) as [->|]; [|done].
  vm_compute. done.
Qed.

Lemma all_digits_no_newline s : all_digits s = true → no_newline s = true.
Proof.
  induction s as [|c s IH]; simpl; [done |].
  intros [Hc Hs]%andb_true_iff.
  rewrite (digit_not_newline c Hc). simpl. auto.
Qed.

Lemma split_lines_line l r :
  no_newline l = true →
  split_lines (l +:+ newline +:+ r) = (l :: lines r, unterminated r).
Proof.
  unfold lines, unterminated. intros Hl.
  induction l as [|c l IH]; simpl in *.
  - by destruct (split_lines r).
  - apply andb_true_iff in Hl as [Hc Hl]. rewrite (IH Hl).
    apply negb_true_iff in Hc. by rewrite Hc.
Qed.

Lemma split_lines_unlines ls :
  Forall (λ l, no_newline l = true) ls →
  split_lines (unlines ls) = (ls, EmptyString).
Proof.
  induction 1 as [|l ls Hl _ IH]; [done |].
  change (unlines (l :: ls)) with (l +:+ newline +:+ unlines ls).
  rewrite split_lines_line by done.
  unfold lines, unterminated. by rewrite IH.
Qed.

Lemma lines_unlines ls :
  Forall (λ l, no_newline l = true) ls → lines (unlines ls) = ls.
Proof. intros H. unfold lines. by rewrite split_lines_unlines. Qed.

Lemma unlines_app xs ys : unlines (xs ++ ys) = unlines xs +:+ unlines ys.
Proof.
  induction xs as [|x xs IH]; [done |].
  change (unlines ((x :: xs) ++ ys)) with (x +:+ newline +:+ unlines (xs ++ ys)).
  change (unlines (x :: xs)) with (x +:+ newline +:+ unlines xs).
  by rewrite IH, !append_assoc.
Qed.

Lemma all_digits_uint d : all_digits (NilEmpty.string_of_uint d) = true.
Proof. induction d; simpl; auto. Qed.

Lemma is_decimal_uint d : is_decimal (NilZero.string_of_uint d) = true.
Proof.
  destruct d; try done;
    unfold NilZero.string_of_uint, is_decimal;
    rewrite <- (all_digits_uint d); simpl; by rewrite ?all_digits_uint.
Qed.

Lemma is_decimal_all_digits s : is_decimal s = true → all_digits s = true.
Proof. by destruct s. Qed.

Lemma fmt_lu_decimal x : is_decimal (fmt_lu x) = true.
Proof. apply is_decimal_uint. Qed.

Lemma fmt_lu_value x : line_value (fmt_lu x) = Some (to_ulong x).
Proof.
  unfold line_value, fmt_lu.
  assert (Hnn : N.to_uint (Z.to_N (to_ulong x)) ≠ Nil).
  { destruct (Z.to_N (to_ulong x)); [done |]. apply DecimalPos.Unsigned.to_uint_nonnil. }
  rewrite (NilZero.usu _ Hnn). simpl.
  rewrite DecimalN.Unsigned.of_to, Z2N.id; [done |].
  apply to_ulong_range.
Qed.

Lemma fmt_d_decimal i : 0 ≤ i < 2 ^ 31 → is_decimal (fmt_d i) = true.
Proof.
  intros H. unfold fmt_d. rewrite to_int_small by lia.
  destruct i as [|p|p]; [done | apply is_decimal_uint | lia].
Qed.

Lemma fmt_d_small x : - 2 ^ 31 ≤ x < 2 ^ 31 → fmt_d x = decimal x.
Proof. intros H. unfold fmt_d, decimal. by rewrite to_int_small. Qed.

Lemma progress_line_no_newline i :
  0 ≤ i < 2 ^ 31 → no_newline (progress_line i) = true.
Proof.
  intros H. unfold progress_line. apply no_newline_append; [done |].
  by apply all_digits_no_newline, is_decimal_all_digits, fmt_d_decimal.
Qed.

End TextFacts.

(** ** Running the program *)

(** Index arithmetic on [long] that stays far from the ends of the type. *)
Ltac long_exact :=
  unfold long_add, long_sub; rewrite to_long_small;
  unfold LONG_MIN, LONG_MAX, long_bits; lia.

Section Execution.

Lemma bind_ok {A B} (m : M A) (k : A → M B) s a s' :
  m s = Ok a s' → (m ≫= k) s = k a s'.
Proof. unfold mbind, M_bind. by intros ->. Qed.

Lemma bind_fault {A B} (m : M A) (k : A → M B) s s' :
  m s = Fault s' → (m ≫= k) s = Fault s'.
Proof. unfold mbind, M_bind. by intros ->. Qed.

Lemma load_ok junk i v s :
  0 ≤ i → block s !! Z.to_nat i = Some v →
  load junk Block i s = Ok v (record (EvLoad i) s).
Proof.
  intros Hi Hv. unfold load, cell.
  destruct (0 <=? i) eqn:E1; [|lia]. by rewrite Hv.
Qed.

Lemma store_ok i v s :
  0 ≤ i < Z.of_nat (length (block s)) →
  store Block i v s =
  Ok tt {| block := <[Z.to_nat i := v]> (block s);
           outside := outside s;
           log := log s ++ [EvStore i v] |}.
Proof.
  intros Hi. unfold store, in_block.
  destruct (0 <=? i) eqn:E1; [|lia].
  destruct (i <? Z.of_nat (length (block s))) eqn:E2; [done | lia].
Qed.

Lemma store_outside i v s :
  ¬ (0 ≤ i < Z.of_nat (length (block s))) →
  store Block i v s =
  Ok tt {| block := block s;
           outside := <[i := v]> (outside s);
           log := log s ++ [EvStore i v] |}.
Proof.
  intros Hi. unfold store, in_block.
  destruct (0 <=? i) eqn:E1; destruct (i <? Z.of_nat (length (block s))) eqn:E2;
    simpl; (done || lia).
Qed.

Lemma store_null i v s : store NULL i v s = Fault (record (EvStore i v) s).
Proof. done. Qed.

Lemma lookup_fibw (n k : nat) (rest : list Z) :
  (k < n)%nat → ((fibw <$> seq 0 n) ++ rest) !! k = Some (fibw k).
Proof.
  intros Hk. rewrite lookup_app_l by (rewrite length_fmap, length_seq; lia).
  rewrite list_lookup_fmap, lookup_seq_lt by lia. done.
Qed.

Lemma seq_snoc (i n : nat) : seq i (S n) = seq i n ++ [(i + n)%nat].
Proof. by rewrite seq_S. Qed.

(** One pass through the body of the first loop. *)
Lemma fill_step junk (i : nat) x rest o lg :
  (2 ≤ i)%nat → Z.of_nat i < 2 ^ 31 →
  fill_body junk Block (Z.of_nat i)
    {| block := (fibw <$> seq 0 i) ++ x :: rest; outside := o; log := lg |}
  = Ok tt {| block := (fibw <$> seq 0 (S i)) ++ rest; outside := o;
             log := lg ++ fill_events i |}.
Proof.
  intros Hi Hlt. destruct i as [|[|k]]; [lia | lia |].
  set (i := S (S k)) in *.
  assert (H1 : long_sub (Z.of_nat i) 1 = Z.of_nat (S k)).
  { long_exact. }
  assert (H2 : long_sub (Z.of_nat i) 2 = Z.of_nat k).
  { long_exact. }
  pose proof (fibw_step k) as Hstep. fold i in Hstep.
  unfold fill_body. rewrite H1, H2.
  erewrite bind_ok; [|reflexivity].
  erewrite bind_ok.
  2:{ apply load_ok; [lia |]. cbn [block log record]. rewrite Nat2Z.id.
      apply lookup_fibw. lia. }
  erewrite bind_ok.
  2:{ apply load_ok; [lia |]. cbn [block log record]. rewrite Nat2Z.id.
      apply lookup_fibw. lia. }
  rewrite store_ok.
  2:{ cbn [block log record]. rewrite length_app, length_fmap, length_seq. simpl length. lia. }
  cbn [block outside log record]. rewrite <- Hstep. f_equal. f_equal.
  - rewrite Nat2Z.id.
    rewrite insert_app_r_alt by (rewrite length_fmap, length_seq; lia).
    rewrite length_fmap, length_seq, Nat.sub_diag. simpl insert.
    rewrite (seq_snoc 0 i), fmap_app, <- app_assoc. done.
  - rewrite <- !app_assoc. simpl. unfold fill_events, progress_line.
    rewrite append_assoc. repeat f_equal; lia.
Qed.

(** The first loop, entered at index [i] with [n] cells left. *)
Lemma fill_loop junk (n : nat) : ∀ (i : nat) rest o lg,
  (2 ≤ i)%nat → (n ≤ length rest)%nat → Z.of_nat (i + n) ≤ 2 ^ 31 →
  for_count n (Z.of_nat i) (fill_body junk Block)
    {| block := (fibw <$> seq 0 i) ++ rest; outside := o; log := lg |}
  = Ok tt {| block := (fibw <$> seq 0 (i + n)) ++ drop n rest; outside := o;
             log := lg ++ (seq i n ≫= fill_events) |}.
Proof.
  induction n as [|n IH]; intros i rest o lg Hi Hlen Hmax.
  - simpl. rewrite Nat.add_0_r, app_nil_r. done.
  - destruct rest as [|x rest]; [simpl in Hlen; lia |].
    simpl for_count.
    erewrite bind_ok; [|apply fill_step; lia].
    replace (long_add (Z.of_nat i) 1) with (Z.of_nat (S i)).
    2:{ long_exact. }
    rewrite IH by (simpl in Hlen; lia).
    simpl drop. rewrite <- app_assoc.
    replace (S i + n)%nat with (i + S n)%nat by lia. done.
Qed.

(** One pass through the body of the second loop. *)
Lemma print_step junk (i n : nat) o lg :
  (i < n)%nat →
  print_body junk Block (Z.of_nat i)
    {| block := fibw <$> seq 0 n; outside := o; log := lg |}
  = Ok tt {| block := fibw <$> seq 0 n; outside := o;
             log := lg ++ print_events i |}.
Proof.
  intros Hi. unfold print_body.
  erewrite bind_ok.
  2:{ apply load_ok; [lia |]. cbn [block log record]. rewrite Nat2Z.id.
      rewrite <- (app_nil_r (fibw <$> seq 0 n)). apply lookup_fibw. lia. }
  unfold fprintf, record. simpl. by rewrite <- app_assoc.
Qed.

Lemma print_loop junk (k : nat) : ∀ (i n : nat) o lg,
  (i + k ≤ n)%nat → Z.of_nat n ≤ 2 ^ 31 →
  for_count k (Z.of_nat i) (print_body junk Block)
    {| block := fibw <$> seq 0 n; outside := o; log := lg |}
  = Ok tt {| block := fibw <$> seq 0 n; outside := o;
             log := lg ++ (seq i k ≫= print_events) |}.
Proof.
  induction k as [|k IH]; intros i n o lg Hi Hmax.
  - simpl. by rewrite app_nil_r.
  - simpl for_count.
    erewrite bind_ok; [|apply print_step; lia].
    replace (long_add (Z.of_nat i) 1) with (Z.of_nat (S i)).
    2:{ long_exact. }
    rewrite IH by lia. by rewrite <- app_assoc.
Qed.

Lemma malloc_cells junk n lg :
  0 ≤ n < 2 ^ 31 →
  malloc junk (n * sizeof_long) {| block := []; outside := ∅; log := lg |}
  = Ok Block
       {| block := (λ k : nat, to_long (junk (Z.of_nat k))) <$> seq 0 (Z.to_nat n);
          outside := ∅;
          log := lg ++ [EvMalloc (n * sizeof_long)] |}.
Proof.
  intros Hn. unfold malloc. cbn [log outside record].
  assert (Hle : (n * sizeof_long <=? PTRDIFF_MAX) = true).
  { apply Z.leb_le. unfold sizeof_long, PTRDIFF_MAX, size_bits.
    change (64 - 1) with 63. lia. }
  rewrite Hle. unfold sizeof_long. by rewrite Z.div_mul by lia.
Qed.

Lemma malloc_null junk bytes lg :
  PTRDIFF_MAX < bytes →
  malloc junk bytes {| block := []; outside := ∅; log := lg |}
  = Ok NULL {| block := []; outside := ∅; log := lg ++ [EvMalloc bytes] |}.
Proof.
  intros Hb. unfold malloc.
  destruct (bytes <=? PTRDIFF_MAX) eqn:E; [lia | done].
Qed.

(** The whole run for a request that [malloc] grants. *)
Lemma run_block junk prog arg :
  0 ≤ atoi arg →
  run junk [prog; arg]
  = Ok 0 {| block := fibw <$> seq 0 (Z.to_nat (atoi arg));
            outside := spilled_seeds (Z.to_nat (atoi arg));
            log := history (Z.to_nat (atoi arg)) |}.
Proof.
  intros HN. pose proof (atoi_range arg) as Hr.
  unfold run, main. cbn [length nth Z.of_nat].
  change (Z.of_nat 2 =? 2) with true. cbv iota.
  set (N := atoi arg) in *.
  rewrite request_size by lia. unfold initial, for_lt.
  destruct (Z.to_nat N) as [|[|m]] eqn:En.
  - (* no cell: both seed stores fall outside *)
    replace (Z.to_nat (N - 2)) with 0%nat by lia.
    replace (Z.to_nat (N - 0)) with 0%nat by lia.
    erewrite bind_ok; cycle 1.
    { erewrite bind_ok; [|apply malloc_cells; lia]. rewrite En.
      erewrite bind_ok; [|apply store_outside; cbn; lia].
      erewrite bind_ok; [|apply store_outside; cbn; lia].
      reflexivity. }
    unfold mret, M_ret, history, seed_events. by replace N with 0 by lia.
  - (* one cell: the second seed store falls outside *)
    replace (Z.to_nat (N - 2)) with 0%nat by lia.
    replace (Z.to_nat (N - 0)) with 1%nat by lia.
    erewrite bind_ok; cycle 1.
    { erewrite bind_ok; [|apply malloc_cells; lia]. rewrite En.
      cbn [seq fmap list_fmap].
      erewrite bind_ok; [|apply store_ok; cbn [block length]; lia].
      erewrite bind_ok;
        [|apply store_outside; cbn [block]; rewrite length_insert; cbn [length]; lia].
      cbn [block outside log for_count]. change (Z.to_nat 0) with 0%nat.
      cbn [insert list_insert].
      erewrite bind_ok; [|reflexivity].
      erewrite bind_ok; [|apply (print_step junk 0 1); lia].
      reflexivity. }
    unfold mret, M_ret, history, seed_events. by replace N with 1 by lia.
  - replace (Z.to_nat (N - 2)) with m by lia.
    replace (Z.to_nat (N - 0)) with (S (S m)) by lia.
    erewrite bind_ok; cycle 1.
    { erewrite bind_ok; [|apply malloc_cells; lia]. rewrite En.
      erewrite bind_ok; [|apply store_ok; cbn [block length seq fmap list_fmap]; lia].
      erewrite bind_ok;
        [|apply store_ok; cbn [block]; rewrite length_insert, length_fmap, length_seq; lia].
      cbn [block outside log]. change (Z.to_nat 0) with 0%nat. change (Z.to_nat 1) with 1%nat.
      erewrite bind_ok.
      2:{ change 2 with (Z.of_nat 2).
          cbn [seq fmap list_fmap insert list_insert].
          apply (fill_loop junk m 2
                   ((λ k : nat, to_long (junk (Z.of_nat k))) <$> seq 2 m));
            [lia | by rewrite length_fmap, length_seq | lia]. }
      rewrite drop_ge by (rewrite length_fmap, length_seq; lia).
      rewrite app_nil_r.
      change 0 with (Z.of_nat 0) at 1.
      rewrite (print_loop junk (S (S m)) 0 (S (S m))) by lia.
      reflexivity. }
    unfold mret, M_ret, history, seed_events.
    replace N with (Z.of_nat (S (S m))) by lia.
    replace (S (S m) - 2)%nat with m by lia.
    by rewrite <- !app_assoc.
Qed.

(** The whole run for a request of at least two elements. *)
Lemma run_ok junk prog arg :
  2 ≤ atoi arg →
  run junk [prog; arg]
  = Ok 0 {| block := fibw <$> seq 0 (Z.to_nat (atoi arg));
            outside := ∅;
            log := history (Z.to_nat (atoi arg)) |}.
Proof.
  intros HN. rewrite run_block by lia.
  destruct (Z.to_nat (atoi arg)) as [|[|m]] eqn:En; [lia | lia | done].
Qed.

(** A negative request: [malloc] gives the null pointer and the run
    stops at the first seed store. *)
Lemma run_negative junk prog arg :
  atoi arg < 0 →
  run junk [prog; arg]
  = Fault {| block := []; outside := ∅;
             log := [EvMalloc (to_size (to_size (atoi arg) * sizeof_long));
                     EvStore 0 0] |}.
Proof.
  intros HN. pose proof (atoi_range arg) as Hr.
  unfold run, main. cbn [length nth Z.of_nat].
  change (Z.of_nat 2 =? 2) with true. cbv iota.
  apply bind_fault. unfold initial.
  erewrite bind_ok; [|apply malloc_null, request_size_neg; lia].
  by apply bind_fault.
Qed.

(** Any other number of arguments. *)
Lemma run_usage junk argv :
  length argv ≠ 2%nat →
  run junk argv
  = Ok 0 {| block := []; outside := ∅;
            log := [EvWrite stderr (usage_line (fmt_s_arg argv 0) +:+ newline)] |}.
Proof.
  intros Hlen. unfold run, main.
  destruct (Z.of_nat (length argv) =? 2) eqn:E; [lia |].
  unfold usage_line. rewrite !append_assoc. done.
Qed.

(** The three ways a run can go. *)
Lemma run_cases (argv : list string) :
  (length argv ≠ 2%nat) ∨
  (∃ prog arg, argv = [prog; arg] ∧ 0 ≤ atoi arg) ∨
  (∃ prog arg, argv = [prog; arg] ∧ atoi arg < 0).
Proof.
  destruct (decide (length argv = 2%nat)) as [Hlen|Hlen]; [|by left].
  destruct argv as [|prog [|arg [|x rest]]]; try discriminate Hlen.
  right. destruct (decide (0 ≤ atoi arg)); [left | right];
    exists prog, arg; (split; [done | lia]).
Qed.

End Execution.

(** ** What the history of a complete run contains *)

Section HistoryFacts.

Lemma written_app f l1 l2 :
  written f (l1 ++ l2) = written f l1 +:+ written f l2.
Proof.
  unfold written. induction l1 as [|e l1 IH]; [done |].
  cbn [app foldr]. by rewrite IH, append_assoc.
Qed.

Lemma written_fill_stdout l : written stdout (l ≫= fill_events) = EmptyString.
Proof. induction l as [|i l IH]; [done |]. exact IH. Qed.

Lemma written_fill_stderr l :
  written stderr (l ≫= fill_events) = unlines (progress <$> l).
Proof.
  induction l as [|i l IH]; [done |].
  change (written stderr ((i :: l) ≫= fill_events))
    with ((progress i +:+ newline) +:+ written stderr (l ≫= fill_events)).
  rewrite IH, append_assoc. done.
Qed.

Lemma written_print_stdout l :
  written stdout (l ≫= print_events) = unlines (printed <$> l).
Proof.
  induction l as [|i l IH]; [done |].
  change (written stdout ((i :: l) ≫= print_events))
    with ((printed i +:+ newline) +:+ written stdout (l ≫= print_events)).
  rewrite IH, append_assoc. done.
Qed.

Lemma written_print_stderr l : written stderr (l ≫= print_events) = EmptyString.
Proof. induction l as [|i l IH]; [done |]. exact IH. Qed.

Lemma stdout_history n :
  written stdout (history n) = unlines (printed <$> seq 0 n).
Proof.
  unfold history. rewrite !written_app, written_fill_stdout, written_print_stdout.
  done.
Qed.

Lemma stderr_history n :
  written stderr (history n) = unlines (progress <$> seq 2 (n - 2)).
Proof.
  unfold history. rewrite !written_app, written_fill_stderr, written_print_stderr.
  by rewrite append_empty_r.
Qed.

Lemma printed_no_newline (l : list nat) :
  Forall (λ s, no_newline s = true) (printed <$> l).
Proof.
  apply Forall_fmap, Forall_forall. intros i _.
  apply all_digits_no_newline, is_decimal_all_digits, fmt_lu_decimal.
Qed.

Lemma progress_no_newline (i k : nat) :
  Z.of_nat (i + k) ≤ 2 ^ 31 →
  Forall (λ s, no_newline s = true) (progress <$> seq i k).
Proof.
  intros H. apply Forall_fmap, Forall_forall. intros j Hj.
  apply elem_of_seq in Hj. apply progress_line_no_newline. lia.
Qed.

(** Accesses of the two loops stay below the bound. *)
Lemma accesses_app l1 l2 : accesses (l1 ++ l2) = accesses l1 ++ accesses l2.
Proof. apply omap_app. Qed.

Lemma accesses_fill (n : Z) l :
  Forall (λ i : nat, (2 ≤ i)%nat ∧ Z.of_nat i < n) l →
  Forall (λ k, 0 ≤ k < n) (accesses (l ≫= fill_events)).
Proof.
  induction 1 as [|i l [Hi Hn] _ IH]; [constructor |].
  change (accesses ((i :: l) ≫= fill_events))
    with (Z.of_nat i - 1 :: Z.of_nat i - 2 :: Z.of_nat i
            :: accesses (l ≫= fill_events)).
  repeat constructor; (lia || exact IH).
Qed.

Lemma accesses_print (n : Z) l :
  Forall (λ i : nat, Z.of_nat i < n) l →
  Forall (λ k, 0 ≤ k < n) (accesses (l ≫= print_events)).
Proof.
  induction 1 as [|i l Hn _ IH]; [constructor |].
  change (accesses ((i :: l) ≫= print_events))
    with (Z.of_nat i :: accesses (l ≫= print_events)).
  constructor; (lia || exact IH).
Qed.

Lemma accesses_history (n : nat) :
  (2 ≤ n)%nat → Forall (λ k, 0 ≤ k < Z.of_nat n) (accesses (history n)).
Proof.
  intros Hn. unfold history. rewrite !accesses_app.
  repeat apply Forall_app_2.
  - cbn. repeat constructor; lia.
  - apply accesses_fill, Forall_forall. intros i Hi%elem_of_seq. lia.
  - apply accesses_print, Forall_forall. intros i Hi%elem_of_seq. lia.
Qed.

(** A store in the first loop is a store to one of its indices. *)
Lemma store_in_fill l i v :
  EvStore i v ∈ l ≫= fill_events → ∃ j : nat, j ∈ l ∧ i = Z.of_nat j ∧ v = fibw j.
Proof.
  intros (j & Hin & Hj)%list_elem_of_bind.
  exists j. unfold fill_events in Hin.
  rewrite !elem_of_cons, elem_of_nil in Hin.
  destruct Hin as [Hin|[Hin|[Hin|[Hin|[]]]]]; try discriminate Hin.
  by inversion Hin.
Qed.

Lemma store_in_print l i v : EvStore i v ∉ l ≫= print_events.
Proof.
  intros (j & Hin & Hj)%list_elem_of_bind.
  unfold print_events in Hin.
  rewrite !elem_of_cons, elem_of_nil in Hin.
  destruct Hin as [Hin|[Hin|[]]]; discriminate Hin.
Qed.

End HistoryFacts.

(** ** The streams of a complete run *)

Section Streams.

Context (junk : Z → Z) (prog arg : string).
Hypothesis enough : 2 ≤ atoi arg.

Let n := Z.to_nat (atoi arg).
Let r := run junk [prog; arg].

Lemma stdout_run : stdout_of r = unlines (printed <$> seq 0 n).
Proof.
  unfold r, stdout_of. rewrite run_ok by done. apply stdout_history.
Qed.

Lemma stderr_run : stderr_of r = unlines (progress <$> seq 2 (n - 2)).
Proof.
  unfold r, stderr_of. rewrite run_ok by done. apply stderr_history.
Qed.

Lemma lines_stdout_run : lines (stdout_of r) = printed <$> seq 0 n.
Proof. rewrite stdout_run. apply lines_unlines, printed_no_newline. Qed.

Lemma lines_stderr_run : lines (stderr_of r) = progress <$> seq 2 (n - 2).
Proof.
  rewrite stderr_run. apply lines_unlines, progress_no_newline.
  pose proof (atoi_range arg). unfold n. lia.
Qed.

Lemma stdout_line_run (i : nat) :
  (i < n)%nat → lines (stdout_of r) !! i = Some (printed i).
Proof.
  intros Hi. rewrite lines_stdout_run, list_lookup_fmap, lookup_seq_lt by done.
  done.
Qed.

Lemma stdout_value_run (i : nat) :
  (i < n)%nat → stdout_value r i = Some (to_ulong (fibw i)).
Proof.
  intros Hi. unfold stdout_value. rewrite stdout_line_run by done.
  apply fmt_lu_value.
Qed.

Lemma block_run (i : nat) :
  (i < n)%nat → block (final_state r) !! i = Some (fibw i).
Proof.
  intros Hi. unfold r. rewrite run_ok by done. cbn [final_state block].
  rewrite list_lookup_fmap, lookup_seq_lt by done. done.
Qed.

End Streams.

(** ** Wrapped and unwrapped Fibonacci numbers *)

Section Wrapping.

Lemma to_long_congr x y : x mod 2 ^ 64 = y mod 2 ^ 64 → to_long x = to_long y.
Proof.
  intros H. unfold to_long, wrap_signed, long_bits.
  rewrite <- (Zplus_mod_idemp_l x), <- (Zplus_mod_idemp_l y), H. done.
Qed.

Lemma to_long_mod x : to_long x mod 2 ^ 64 = x mod 2 ^ 64.
Proof. apply to_ulong_to_long. Qed.

Lemma long_add_wraps a b : long_add (to_long a) (to_long b) = to_long (a + b).
Proof.
  unfold long_add. apply to_long_congr.
  rewrite Zplus_mod, !to_long_mod, <- Zplus_mod. done.
Qed.

Lemma fibw_pair n :
  fibw n = to_long (Fib n) ∧ fibw (S n) = to_long (Fib (S n)).
Proof.
  induction n as [|n [IH0 IH1]]; [done |].
  split; [done |].
  by rewrite fibw_step, Fib_step, IH0, IH1, long_add_wraps.
Qed.

Lemma fibw_Fib n : fibw n = to_long (Fib n).
Proof. apply fibw_pair. Qed.

Lemma fibw_residue n : to_ulong (fibw n) = Fib n mod 2 ^ 64.
Proof. rewrite fibw_Fib. apply to_ulong_to_long. Qed.

Lemma fibw_residue_step n :
  to_ulong (fibw (S (S n)))
  = (to_ulong (fibw (S n)) + to_ulong (fibw n)) mod 2 ^ 64.
Proof. rewrite !fibw_residue, Fib_step. apply Zplus_mod. Qed.

End Wrapping.

(** ** Concrete runs *)

Example atoi_examples :
  atoi "5" = 5 ∧ atoi "  +12ab" = 12 ∧ atoi "-3" = -3 ∧ atoi "x" = 0 ∧
  atoi "4294967298" = 2.
Proof. by vm_compute. Qed.

Example run_5 :
  lines (stdout_of (run (λ _, 7) ["fibonacci"; "5"])) = ["0"; "1"; "1"; "2"; "3"] ∧
  lines (stderr_of (run (λ _, 7) ["fibonacci"; "5"]))
  = ["Calculating index 2"; "Calculating index 3"; "Calculating index 4"] ∧
  exit_status (run (λ _, 7) ["fibonacci"; "5"]) = Some 0.
Proof. by vm_compute. Qed.

Example run_2 :
  lines (stdout_of (run (λ _, 7) ["fibonacci"; "2"])) = ["0"; "1"] ∧
  stderr_of (run (λ _, 7) ["fibonacci"; "2"]) = EmptyString.
Proof. by vm_compute. Qed.

Example run_10 :
  length (lines (stdout_of (run (λ _, 7) ["fibonacci"; "10"]))) = 10%nat ∧
  last (lines (stdout_of (run (λ _, 7) ["fibonacci"; "10"]))) = Some "34" ∧
  length (lines (stderr_of (run (λ _, 7) ["fibonacci"; "10"]))) = 8%nat.
Proof. by vm_compute. Qed.

Example run_no_argument :
  stderr_of (run (λ _, 7) ["fibonacci"]) = "Usage: fibonacci <index>" +:+ newline ∧
  stdout_of (run (λ _, 7) ["fibonacci"]) = EmptyString.
Proof. by vm_compute. Qed.

Example run_1 :
  run (λ _, 7) ["fibonacci"; "1"]
  = Ok 0 {| block := [0]; outside := <[1 := 1]> ∅;
            log := [EvMalloc 8; EvStore 0 0; EvStore 1 1; EvLoad 0;
                    EvWrite stdout ("0" +:+ newline)] |}.
Proof. by vm_compute. Qed.

Example run_0 :
  run (λ _, 7) ["fibonacci"; "0"]
  = Ok 0 {| block := []; outside := <[1 := 1]> (<[0 := 0]> ∅);
            log := [EvMalloc 0; EvStore 0 0; EvStore 1 1] |}.
Proof. by vm_compute. Qed.

(** ** Properties of the program *)

(** C1. With a single argument N >= 2, the number on stdout line [i]
    (counted from 0) is the number on line [i-1] plus the number on line
    [i-2], added as 64-bit wrapping integers, for every [i] from 2 to
    N-1. *)
Theorem stdout_line_is_sum_of_previous_two junk prog arg (i : nat) :
  2 ≤ atoi arg →
  2 ≤ Z.of_nat i ≤ atoi arg - 1 →
  ∃ a b,
    stdout_value (run junk [prog; arg]) (i - 2) = Some a ∧
    stdout_value (run junk [prog; arg]) (i - 1) = Some b ∧
    stdout_value (run junk [prog; arg]) i = Some ((b + a) mod 2 ^ long_bits).
Proof.
  intros HN Hi. destruct i as [|[|k]]; [lia | lia |].
  exists (to_ulong (fibw k)), (to_ulong (fibw (S k))).
  rewrite !stdout_value_run by lia.
  replace (S (S k) - 2)%nat with k by lia.
  replace (S (S k) - 1)%nat with (S k) by lia.
  by rewrite fibw_residue_step.
Qed.

Lemma stdout_line_is_sum_of_previous_two_witness :
  2 ≤ atoi "10" ∧
  ∃ a b,
    stdout_value (run (λ _, 0) ["fibonacci"; "10"]) 7 = Some a ∧
    stdout_value (run (λ _, 0) ["fibonacci"; "10"]) 8 = Some b ∧
    stdout_value (run (λ _, 0) ["fibonacci"; "10"]) 9
    = Some ((b + a) mod 2 ^ long_bits).
Proof.
  split; [by vm_compute |].
  apply (stdout_line_is_sum_of_previous_two (λ _, 0) "fibonacci" "10" 9);
    by vm_compute.
Defined.

(** C2. With a single argument N >= 2, the first line of stdout is [0]
    and the second is [1]. *)
Theorem stdout_starts_with_seeds junk prog arg :
  2 ≤ atoi arg →
  lines (stdout_of (run junk [prog; arg])) !! 0%nat = Some "0" ∧
  lines (stdout_of (run junk [prog; arg])) !! 1%nat = Some "1".
Proof.
  intros HN. rewrite !stdout_line_run by lia. done.
Qed.

Lemma stdout_starts_with_seeds_witness :
  2 ≤ atoi "2" ∧
  lines (stdout_of (run (λ _, 5) ["fibonacci"; "2"])) !! 0%nat = Some "0" ∧
  lines (stdout_of (run (λ _, 5) ["fibonacci"; "2"])) !! 1%nat = Some "1".
Proof.
  split; [by vm_compute |].
  apply (stdout_starts_with_seeds (λ _, 5) "fibonacci" "2"). by vm_compute.
Defined.

(** C3. With a single argument N >= 2, stdout consists of exactly N
    lines, every one of them newline-terminated and holding one decimal
    integer and nothing else. *)
Theorem stdout_is_N_decimal_lines junk prog arg :
  2 ≤ atoi arg →
  let out := stdout_of (run junk [prog; arg]) in
  Z.of_nat (length (lines out)) = atoi arg ∧
  unterminated out = EmptyString ∧
  out = unlines (lines out) ∧
  Forall (λ l, is_decimal l = true) (lines out).
Proof.
  intros HN out. unfold out. rewrite lines_stdout_run by done.
  rewrite stdout_run by done. repeat split.
  - rewrite length_fmap, length_seq. lia.
  - unfold unterminated. by rewrite split_lines_unlines by apply printed_no_newline.
  - apply Forall_fmap, Forall_forall. intros i _. apply fmt_lu_decimal.
Qed.

Lemma stdout_is_N_decimal_lines_witness :
  2 ≤ atoi "5" ∧
  let out := stdout_of (run (λ _, 0) ["fibonacci"; "5"]) in
  Z.of_nat (length (lines out)) = atoi "5" ∧
  unterminated out = EmptyString ∧
  out = unlines (lines out) ∧
  Forall (λ l, is_decimal l = true) (lines out).
Proof.
  split; [by vm_compute |].
  apply (stdout_is_N_decimal_lines (λ _, 0) "fibonacci" "5"). by vm_compute.
Defined.

(** C4. With a single argument N >= 2, stderr consists of exactly N-2
    lines [Calculating index i], for i = 2, ..., N-1 in this order, and
    the line for index [i] is written before the program touches
    element [i]: it is followed at once by the two loads and the store
    that compute it. *)
Theorem progress_lines_precede_elements junk prog arg :
  2 ≤ atoi arg →
  let r := run junk [prog; arg] in
  let line (i : nat) := "Calculating index " +:+ decimal (Z.of_nat i) in
  lines (stderr_of r) = line <$> seq 2 (Z.to_nat (atoi arg) - 2) ∧
  Z.of_nat (length (lines (stderr_of r))) = atoi arg - 2 ∧
  unterminated (stderr_of r) = EmptyString ∧
  ∀ i : nat, 2 ≤ Z.of_nat i ≤ atoi arg - 1 →
    ∃ pre post v,
      log (final_state r)
      = pre ++ EvWrite stderr (line i +:+ newline)
            :: EvLoad (Z.of_nat i - 1) :: EvLoad (Z.of_nat i - 2)
            :: EvStore (Z.of_nat i) v :: post ∧
      ∀ e, e ∈ pre → access_index e ≠ Some (Z.of_nat i).
Proof.
  intros HN r line. pose proof (atoi_range arg) as Hr.
  set (n := Z.to_nat (atoi arg)).
  assert (Hline : ∀ i k : nat, Z.of_nat (i + k) ≤ 2 ^ 31 →
            progress <$> seq i k = line <$> seq i k).
  { intros i k Hik. apply list_fmap_ext. intros idx j Hj%lookup_seq.
    unfold progress, progress_line, line. rewrite fmt_d_small by lia. done. }
  split; [|split; [|split]].
  - unfold r. rewrite lines_stderr_run by done. apply Hline. lia.
  - unfold r. rewrite lines_stderr_run by done.
    rewrite length_fmap, length_seq. lia.
  - unfold r, unterminated. rewrite stderr_run by done.
    rewrite split_lines_unlines; [done |]. apply progress_no_newline. lia.
  - intros i Hi. unfold r. rewrite run_ok by done. cbn [final_state log].
    fold n. unfold history.
    replace (n - 2)%nat with ((i - 2) + S (n - 1 - i))%nat by lia.
    rewrite seq_app. replace (2 + (i - 2))%nat with i by lia.
    cbn [seq]. rewrite bind_app, bind_cons.
    exists (seed_events (Z.of_nat n) ++ (seq 2 (i - 2) ≫= fill_events)).
    exists ((seq (S i) (n - 1 - i) ≫= fill_events) ++ (seq 0 n ≫= print_events)).
    exists (fibw i). split.
    + unfold fill_events at 2, progress_line, line.
      rewrite fmt_d_small by lia. by rewrite <- !app_assoc.
    + intros e [He|He]%elem_of_app.
      * unfold seed_events in He. rewrite !elem_of_cons, elem_of_nil in He.
        destruct He as [->|[->|[->|[]]]]; cbn; [done | |]; intros [= ?]; lia.
      * apply list_elem_of_bind in He as (j & He & Hj%elem_of_seq).
        unfold fill_events in He. rewrite !elem_of_cons, elem_of_nil in He.
        destruct He as [->|[->|[->|[->|[]]]]]; cbn; [done | | |];
          intros [= ?]; lia.
Qed.

Lemma progress_lines_precede_elements_witness :
  2 ≤ atoi "10" ∧
  lines (stderr_of (run (λ _, 0) ["fibonacci"; "10"]))
  = (λ i : nat, "Calculating index " +:+ decimal (Z.of_nat i)) <$> seq 2 8 ∧
  Z.of_nat (length (lines (stderr_of (run (λ _, 0) ["fibonacci"; "10"])))) = 8.
Proof.
  split; [by vm_compute |].
  pose proof (progress_lines_precede_elements (λ _, 0) "fibonacci" "10") as H.
  destruct H as (H1 & H2 & _); [by vm_compute |].
  split; [exact H1 | exact H2].
Defined.

(** C5. Invoked with no argument or with more than one, the program
    writes the single line [Usage: <program-name> <index>] to stderr and
    does nothing else: nothing is allocated, no element is computed and
    stdout stays empty. *)
Theorem wrong_argument_count_prints_usage junk prog args :
  length args ≠ 1%nat →
  let r := run junk (prog :: args) in
  log (final_state r)
  = [EvWrite stderr ("Usage: " +:+ prog +:+ " <index>" +:+ newline)] ∧
  stderr_of r = "Usage: " +:+ prog +:+ " <index>" +:+ newline ∧
  stdout_of r = EmptyString.
Proof.
  intros Hlen r.
  assert (Hlog : log (final_state r)
    = [EvWrite stderr ("Usage: " +:+ prog +:+ " <index>" +:+ newline)]).
  { unfold r. rewrite run_usage by (cbn [length]; lia).
    cbn [final_state log fmt_s_arg nth]. unfold usage_line.
    by rewrite !append_assoc. }
  split; [exact Hlog |].
  unfold stderr_of, stdout_of. rewrite Hlog.
  split; [apply append_empty_r | done].
Qed.

Lemma wrong_argument_count_prints_usage_witness :
  length (@nil string) ≠ 1%nat ∧
  stderr_of (run (λ _, 0) ["fibonacci"]) = "Usage: fibonacci <index>" +:+ newline ∧
  stdout_of (run (λ _, 0) ["fibonacci"]) = EmptyString.
Proof.
  split; [done |].
  pose proof (wrong_argument_count_prints_usage (λ _, 0) "fibonacci" []) as H.
  destruct H as (_ & H1 & H2); [done |].
  split; [exact H1 | exact H2].
Defined.

(** C6. The two seed stores are not guarded by the requested size N:
    the store to element 0 is in the history of every run, and so is the
    store to element 1 for every N >= 0 (for N < 0 [malloc] gives the
    null pointer and the run ends at the first seed store).  The block
    has N elements, so for N = 0 and N = 1 a seed store is performed
    outside of it, and its value lands next to the block; all the loads
    and stores of a run lie within 0..N-1 exactly when N >= 2. *)
Theorem seed_stores_are_unchecked junk prog arg :
  let N := atoi arg in
  let s := final_state (run junk [prog; arg]) in
  EvStore 0 0 ∈ log s ∧
  (0 ≤ N → EvStore 1 1 ∈ log s) ∧
  (0 ≤ N → Z.of_nat (length (block s)) = N) ∧
  (N = 0 ∨ N = 1 →
     ∃ k, (k = 0 ∨ k = 1) ∧ EvStore k k ∈ log s ∧ ¬ (0 ≤ k < N) ∧
          outside s !! k = Some k) ∧
  (Forall (λ k, 0 ≤ k < N) (accesses (log s)) ↔ 2 ≤ N).
Proof.
  intros N s. pose proof (atoi_range arg) as Hr. fold N in Hr.
  destruct (decide (0 ≤ N)) as [HN|HN].
  - (* [malloc] serves the request *)
    assert (Hs : s = {| block := fibw <$> seq 0 (Z.to_nat N);
                        outside := spilled_seeds (Z.to_nat N);
                        log := history (Z.to_nat N) |}).
    { unfold s, N. by rewrite run_block. }
    rewrite Hs. cbn [log block outside].
    assert (H0 : EvStore 0 0 ∈ history (Z.to_nat N)).
    { apply elem_of_app. left. by repeat constructor. }
    assert (H1 : EvStore 1 1 ∈ history (Z.to_nat N)).
    { apply elem_of_app. left. by repeat constructor. }
    split; [exact H0 |]. split; [done |].
    split; [intros _; rewrite length_fmap, length_seq; lia |].
    split.
    + intros HN01. exists 1. split; [by right |]. split; [exact H1 |].
      split; [lia |].
      destruct HN01 as [HN0|HN1].
      * replace (Z.to_nat N) with 0%nat by lia. apply lookup_insert_eq.
      * replace (Z.to_nat N) with 1%nat by lia. apply lookup_insert_eq.
    + split.
      * unfold history, seed_events. rewrite accesses_app.
        cbn [accesses omap list_omap access_index app].
        intros H. inversion H as [|?? _ H']; subst.
        inversion H' as [|?? H'' _]; subst. lia.
      * intros HN2.
        pose proof (accesses_history (Z.to_nat N)) as Hacc.
        rewrite Z2Nat.id in Hacc by lia. apply Hacc. lia.
  - (* the null pointer: the run ends at the first seed store *)
    assert (Hs : s = {| block := []; outside := ∅;
                        log := [EvMalloc (to_size (to_size N * sizeof_long));
                                EvStore 0 0] |}).
    { unfold s, N. by rewrite run_negative by (fold N; lia). }
    rewrite Hs. cbn [log block outside].
    split; [by repeat constructor |]. split; [lia |]. split; [lia |].
    split; [lia |]. split; [|lia].
    cbn. intros H. inversion H as [|?? H' _]; subst. lia.
Qed.

Lemma seed_stores_are_unchecked_witness :
  ∃ k, (k = 0 ∨ k = 1) ∧
       EvStore k k ∈ log (final_state (run (λ _, 0) ["fibonacci"; "1"])) ∧
       ¬ (0 ≤ k < atoi "1") ∧
       outside (final_state (run (λ _, 0) ["fibonacci"; "1"])) !! k = Some k.
Proof.
  pose proof (seed_stores_are_unchecked (λ _, 0) "fibonacci" "1") as H.
  destruct H as (_ & _ & _ & H & _). apply H. right. by vm_compute.
Defined.

(** Whatever the allocator left in the block, the run is the same. *)
Lemma run_ignores_junk junk1 junk2 argv : run junk1 argv = run junk2 argv.
Proof.
  destruct (run_cases argv)
    as [Hlen|[(prog & arg & -> & HN)|(prog & arg & -> & HN)]].
  - by rewrite !run_usage.
  - by rewrite !run_block.
  - by rewrite !run_negative.
Qed.

(** C7, as the program has it.  The exit status is 0 on the usage path
    and for a single argument N >= 2.  (It is not 0 for every
    invocation: a negative N makes [malloc] fail and the first seed
    store goes through a null pointer.) *)
Theorem exit_status_zero junk argv :
  length argv ≠ 2%nat ∨ (∃ prog arg, argv = [prog; arg] ∧ 2 ≤ atoi arg) →
  exit_status (run junk argv) = Some 0.
Proof.
  intros [Hlen|(prog & arg & -> & HN)].
  - by rewrite run_usage.
  - by rewrite run_ok.
Qed.

Lemma exit_status_zero_witness :
  exit_status (run (λ _, 0) ["fibonacci"]) = Some 0 ∧
  exit_status (run (λ _, 0) ["fibonacci"; "10"]) = Some 0 ∧
  exit_status (run (λ _, 0) ["fibonacci"; "10"; "20"]) = Some 0.
Proof.
  split; [|split].
  - apply (exit_status_zero (λ _, 0) ["fibonacci"]). left. by vm_compute.
  - apply (exit_status_zero (λ _, 0) ["fibonacci"; "10"]). right.
    exists "fibonacci", "10". split; [reflexivity | by vm_compute].
  - apply (exit_status_zero (λ _, 0) ["fibonacci"; "10"; "20"]). left.
    by vm_compute.
Defined.

(** C7, as stated, fails: with the argument [-1] the request is for
    [2^64 - 8] bytes, [malloc] returns a null pointer and the run stops
    at [fib[0] = 0] without an exit status. *)
Lemma exit_status_zero_counterexample :
  atoi "-1" = -1 ∧
  run (λ _, 0) ["fibonacci"; "-1"]
  = Fault {| block := []; outside := ∅;
             log := [EvMalloc 18446744073709551608; EvStore 0 0] |} ∧
  exit_status (run (λ _, 0) ["fibonacci"; "-1"]) ≠ Some 0.
Proof. split; [|split]; by vm_compute. Qed.

(** C8. Nothing checks for overflow.  Every value the program stores is
    the Fibonacci number of its index reduced to a 64-bit [long], and
    for a single argument N >= 2 the run completes with status 0 and
    prints, on line [i], the Fibonacci number [F i] modulo [2^64], also
    when [F i] itself does not fit. *)
Theorem overflow_wraps_silently junk prog arg :
  let r := run junk [prog; arg] in
  (∀ i v, EvStore i v ∈ log (final_state r) →
          v = to_long (Fib (Z.to_nat i))) ∧
  (2 ≤ atoi arg →
   exit_status r = Some 0 ∧
   ∀ i : nat, Z.of_nat i < atoi arg →
     block (final_state r) !! i = Some (to_long (Fib i)) ∧
     stdout_value r i = Some (Fib i mod 2 ^ long_bits)).
Proof.
  intros r. split.
  - intros i v. unfold r.
    destruct (decide (2 ≤ atoi arg)) as [HN|HN].
    + rewrite run_ok by done. cbn [final_state log]. unfold history.
      rewrite !elem_of_app.
      intros [Hin|[Hin|Hin]].
      * unfold seed_events in Hin. rewrite !elem_of_cons, elem_of_nil in Hin.
        destruct Hin as [Hin|[Hin|[Hin|[]]]]; try discriminate Hin;
          by inversion Hin.
      * apply store_in_fill in Hin as (j & _ & -> & ->).
        by rewrite Nat2Z.id, fibw_Fib.
      * by apply store_in_print in Hin.
    + destruct (decide (0 ≤ atoi arg)) as [HN0|HN0].
      * rewrite run_block by done. cbn [final_state log].
        assert (Hsmall : history (Z.to_nat (atoi arg))
                         = seed_events (Z.of_nat (Z.to_nat (atoi arg)))
                           ++ (seq 0 (Z.to_nat (atoi arg)) ≫= print_events)).
        { unfold history.
          by replace (Z.to_nat (atoi arg) - 2)%nat with 0%nat by lia. }
        rewrite Hsmall, elem_of_app. intros [Hin|Hin].
        -- unfold seed_events in Hin. rewrite !elem_of_cons, elem_of_nil in Hin.
           destruct Hin as [Hin|[Hin|[Hin|[]]]]; try discriminate Hin;
             by inversion Hin.
        -- by apply store_in_print in Hin.
      * rewrite run_negative by lia. cbn [final_state log].
        rewrite !elem_of_cons, elem_of_nil. intros Hin.
        destruct Hin as [Hin|[Hin|[]]]; try discriminate Hin; by inversion Hin.
  - intros HN. unfold r. split; [by rewrite run_ok |].
    intros i Hi.
    rewrite block_run, stdout_value_run by lia.
    by rewrite fibw_residue, fibw_Fib.
Qed.

Lemma overflow_wraps_silently_witness :
  2 ^ long_bits ≤ Fib 94 ∧
  Fib 94 mod 2 ^ long_bits = 1293530146158671551 ∧
  exit_status (run (λ _, 0) ["fibonacci"; "95"]) = Some 0 ∧
  stdout_value (run (λ _, 0) ["fibonacci"; "95"]) 94
  = Some (Fib 94 mod 2 ^ long_bits).
Proof.
  split; [by vm_compute |]. split; [by vm_compute |].
  pose proof (overflow_wraps_silently (λ _, 0) "fibonacci" "95") as [_ H].
  destruct H as [H0 H]; [by vm_compute |].
  split; [exact H0 |]. apply (H 94%nat). by vm_compute.
Defined.

(** C9. Each stored value is printed with [%lu]: for a single argument
    N >= 2, line [i] of stdout holds digits only, and the number it
    shows is the stored [long] read as unsigned, that is its residue
    modulo [2^64]; a negative stored value [v] is shown as [v + 2^64],
    never with a minus sign. *)
Theorem stdout_prints_unsigned junk prog arg (i : nat) (v : Z) :
  2 ≤ atoi arg →
  block (final_state (run junk [prog; arg])) !! i = Some v →
  ∃ l,
    lines (stdout_of (run junk [prog; arg])) !! i = Some l ∧
    is_decimal l = true ∧
    line_value l = Some (v mod 2 ^ long_bits) ∧
    (v < 0 → line_value l = Some (v + 2 ^ long_bits)).
Proof.
  intros HN Hv.
  assert (Hi : (i < Z.to_nat (atoi arg))%nat).
  { apply lookup_lt_Some in Hv. rewrite run_ok in Hv by done.
    cbn [final_state block] in Hv. by rewrite length_fmap, length_seq in Hv. }
  rewrite block_run in Hv by done. injection Hv as <-.
  exists (printed i). rewrite stdout_line_run by done.
  split; [done |]. split; [apply fmt_lu_decimal |].
  unfold printed. rewrite fmt_lu_value.
  split; [done |]. intros Hneg. f_equal.
  pose proof (to_long_range (Fib i)) as Hr. rewrite <- fibw_Fib in Hr.
  unfold to_ulong, wrap_unsigned, LONG_MIN, LONG_MAX, long_bits in *.
  symmetry. apply Z.mod_unique with (q := -1); lia.
Qed.

Lemma stdout_prints_unsigned_witness :
  2 ≤ atoi "94" ∧
  block (final_state (run (λ _, 0) ["fibonacci"; "94"])) !! 93%nat
  = Some (-6246583658587674878) ∧
  ∃ l,
    lines (stdout_of (run (λ _, 0) ["fibonacci"; "94"])) !! 93%nat = Some l ∧
    is_decimal l = true ∧
    line_value l = Some (-6246583658587674878 mod 2 ^ long_bits) ∧
    (-6246583658587674878 < 0 →
     line_value l = Some (-6246583658587674878 + 2 ^ long_bits)).
Proof.
  split; [by vm_compute |]. split; [by vm_compute |].
  apply (stdout_prints_unsigned (λ _, 0) "fibonacci" "94" 93); by vm_compute.
Defined.

(** C10. The program is deterministic: its stdout, its stderr and its
    exit status are determined by the argument vector; the one thing a
    run could otherwise depend on, the initial content of the block that
    [malloc] returns, has no influence on them. *)
Theorem run_is_deterministic junk1 junk2 argv :
  stdout_of (run junk1 argv) = stdout_of (run junk2 argv) ∧
  stderr_of (run junk1 argv) = stderr_of (run junk2 argv) ∧
  exit_status (run junk1 argv) = exit_status (run junk2 argv).
Proof. by rewrite (run_ignores_junk junk1 junk2 argv). Qed.


(** ** Further properties: the order of events *)

Section Order.

Lemma stores_app l1 l2 : stores (l1 ++ l2) = stores l1 ++ stores l2.
Proof. apply omap_app. Qed.

Lemma stores_fill l :
  stores (l ≫= fill_events) = (λ i : nat, (Z.of_nat i, fibw i)) <$> l.
Proof.
  induction l as [|i l IH]; [done |].
  rewrite bind_cons, stores_app, IH. done.
Qed.

Lemma stores_print l : stores (l ≫= print_events) = [].
Proof.
  induction l as [|i l IH]; [done |].
  rewrite bind_cons, stores_app, IH. done.
Qed.

Lemma stores_history n :
  (2 ≤ n)%nat →
  stores (history n) = (λ i : nat, (Z.of_nat i, fibw i)) <$> seq 0 n.
Proof.
  intros Hn. unfold history.
  rewrite !stores_app, stores_fill, stores_print, app_nil_r.
  destruct n as [|[|m]]; [lia | lia |].
  replace (S (S m) - 2)%nat with m by lia. done.
Qed.

Lemma loads_follow_stores_app seen l1 l2 :
  loads_follow_stores seen (l1 ++ l2)
  = loads_follow_stores seen l1
    && loads_follow_stores (foldl note_store seen l1) l2.
Proof.
  revert seen. induction l1 as [|e l1 IH]; intros seen; [done |].
  cbn [app loads_follow_stores foldl]. by rewrite IH, andb_assoc.
Qed.

(** The first loop, entered at [a] when all the cells below [a] are
    stored, loads stored cells only and leaves all the cells below
    [a + k] stored. *)
Lemma loads_follow_stores_fill (k : nat) : ∀ (a : nat) seen,
  (2 ≤ a)%nat →
  (∀ j : nat, (j < a)%nat → Z.of_nat j ∈ seen) →
  loads_follow_stores seen (seq a k ≫= fill_events) = true ∧
  ∀ j : nat, (j < a + k)%nat →
    Z.of_nat j ∈ foldl note_store seen (seq a k ≫= fill_events).
Proof.
  induction k as [|k IH]; intros a seen Ha Hseen.
  - split; [done |]. intros j Hj. apply Hseen. lia.
  - cbn [seq]. rewrite bind_cons, loads_follow_stores_app, foldl_app.
    assert (H1 : Z.of_nat a - 1 ∈ seen).
    { replace (Z.of_nat a - 1) with (Z.of_nat (a - 1)) by lia.
      apply Hseen. lia. }
    assert (H2 : Z.of_nat a - 2 ∈ seen).
    { replace (Z.of_nat a - 2) with (Z.of_nat (a - 2)) by lia.
      apply Hseen. lia. }
    destruct (IH (S a) (Z.of_nat a :: seen)) as [IHa IHb]; [lia | |].
    { intros j Hj. destruct (decide (j = a)) as [->|Hne]; [left |].
      right. apply Hseen. lia. }
    split.
    + cbn [fill_events loads_follow_stores note_store foldl].
      rewrite !bool_decide_eq_true_2 by done. exact IHa.
    + intros j Hj. apply IHb. lia.
Qed.

Lemma loads_follow_stores_print l seen :
  (∀ j : nat, j ∈ l → Z.of_nat j ∈ seen) →
  loads_follow_stores seen (l ≫= print_events) = true.
Proof.
  induction l as [|i l IH]; intros Hseen; [done |].
  rewrite bind_cons, loads_follow_stores_app.
  cbn [print_events loads_follow_stores note_store foldl].
  rewrite bool_decide_eq_true_2 by (apply Hseen; left).
  apply IH. intros j Hj. apply Hseen. by right.
Qed.

Lemma loads_follow_stores_history n :
  loads_follow_stores [] (history n) = true.
Proof.
  unfold history. rewrite !loads_follow_stores_app.
  destruct (loads_follow_stores_fill (n - 2) 2
              (foldl note_store [] (seed_events (Z.of_nat n))))
    as [Hfill Hseen]; [lia | |].
  { intros [|[|j]] Hj; [by right; left | by left | lia]. }
  rewrite Hfill. cbn [seed_events loads_follow_stores andb].
  apply loads_follow_stores_print.
  intros j Hj%elem_of_seq. rewrite <- foldl_app. apply Hseen. lia.
Qed.

(** What [loads_follow_stores] says about a load in the middle of a
    history. *)
Lemma loads_follow_stores_sound pre : ∀ seen l i post,
  loads_follow_stores seen l = true →
  l = pre ++ EvLoad i :: post →
  i ∈ seen ∨ ∃ v, EvStore i v ∈ pre.
Proof.
  induction pre as [|e pre IH]; intros seen l i post Hl ->.
  - cbn in Hl. apply andb_true_iff in Hl as [Hi _].
    left. by apply bool_decide_eq_true in Hi.
  - cbn [app loads_follow_stores] in Hl.
    apply andb_true_iff in Hl as [_ Hl].
    destruct (IH _ _ i post Hl eq_refl) as [Hin|[v Hin]].
    + destruct e as [b|j v|j|f t]; cbn [note_store] in Hin;
        try (by left).
      apply elem_of_cons in Hin as [->|Hin]; [|by left].
      right. exists v. left.
    + right. exists v. by right.
Qed.

Lemma loads_follow_stores_run junk argv :
  loads_follow_stores [] (log (final_state (run junk argv))) = true.
Proof.
  destruct (run_cases argv)
    as [Hlen|[(prog & arg & -> & HN)|(prog & arg & -> & HN)]].
  - by rewrite run_usage.
  - rewrite run_block by done. apply loads_follow_stores_history.
  - by rewrite run_negative.
Qed.

(** Where a history [a ++ b] has its first write to stdout in [b]. *)
Lemma first_stdout_write a : ∀ b pre e post,
  Forall (λ x, is_stdout_write x = false) a →
  is_stdout_write e = true →
  a ++ b = pre ++ e :: post →
  ∃ pre', b = pre' ++ e :: post.
Proof.
  induction a as [|x a IH]; intros b pre e post Ha He Heq.
  - by exists pre.
  - apply Forall_cons in Ha as [Hx Ha].
    destruct pre as [|y pre]; cbn [app] in Heq; injection Heq as -> Heq.
    + congruence.
    + by apply (IH b pre e post).
Qed.

Lemma print_events_only l :
  Forall (λ e, is_print_event e = true) (l ≫= print_events).
Proof.
  induction l as [|i l IH]; [constructor |].
  rewrite bind_cons. apply Forall_app. split; [|done].
  by repeat constructor.
Qed.

Lemma no_stdout_before_print n :
  Forall (λ x, is_stdout_write x = false)
    (seed_events (Z.of_nat n) ++ (seq 2 (n - 2) ≫= fill_events)).
Proof.
  apply Forall_app. split; [by repeat constructor |].
  generalize (seq 2 (n - 2)). intros l.
  induction l as [|i l IH]; [constructor |].
  rewrite bind_cons. apply Forall_app. split; [|done].
  by repeat constructor.
Qed.

End Order.

(** X1. The program never loads a cell it has not stored before: in the
    history of any run, every load of element [i] comes after a store
    to element [i]. *)
Theorem loads_read_stored_cells junk argv pre i post :
  log (final_state (run junk argv)) = pre ++ EvLoad i :: post →
  ∃ v, EvStore i v ∈ pre.
Proof.
  intros Hlog.
  destruct (loads_follow_stores_sound pre [] _ i post
              (loads_follow_stores_run junk argv) Hlog) as [Hin|Hin];
    [|done].
  by apply elem_of_nil in Hin.
Qed.

Lemma loads_read_stored_cells_witness :
  ∃ v, EvStore 1 v
       ∈ take 4 (log (final_state (run (λ _, 7) ["fibonacci"; "3"]))).
Proof.
  apply (loads_read_stored_cells (λ _, 7) ["fibonacci"; "3"]
           (take 4 (log (final_state (run (λ _, 7) ["fibonacci"; "3"]))))
           1
           (drop 5 (log (final_state (run (λ _, 7) ["fibonacci"; "3"]))))).
  by vm_compute.
Defined.

(** X2. With a single argument N >= 2, the stores of the run are, in
    this order, one store to each of the elements 0, 1, ..., N-1, each
    of the Fibonacci number of its index reduced to a [long]: no element
    is stored twice or skipped. *)
Theorem each_element_stored_once junk prog arg :
  2 ≤ atoi arg →
  stores (log (final_state (run junk [prog; arg])))
  = (λ i : nat, (Z.of_nat i, to_long (Fib i))) <$> seq 0 (Z.to_nat (atoi arg)).
Proof.
  intros HN. rewrite run_ok by done. cbn [final_state log].
  rewrite stores_history by lia.
  apply list_fmap_ext. intros _ i _. by rewrite fibw_Fib.
Qed.

Lemma each_element_stored_once_witness :
  2 ≤ atoi "4" ∧
  stores (log (final_state (run (λ _, 7) ["fibonacci"; "4"])))
  = [(0, 0); (1, 1); (2, 1); (3, 2)].
Proof.
  split; [by vm_compute |].
  rewrite (each_element_stored_once (λ _, 7) "fibonacci" "4"); by vm_compute.
Defined.

(** X3. Output starts only when the array is complete: after a write
    to stdout the program does nothing but load elements and write to
    stdout; in particular it stores no element and writes no progress
    line any more. *)
Theorem after_output_only_loads_and_prints junk argv pre text post :
  log (final_state (run junk argv)) = pre ++ EvWrite stdout text :: post →
  Forall (λ e, is_print_event e = true) post.
Proof.
  destruct (run_cases argv)
    as [Hlen|[(prog & arg & -> & HN)|(prog & arg & -> & HN)]].
  - rewrite run_usage by done. cbn [final_state log]. intros Heq. exfalso.
    destruct pre as [|e [|e' pre]]; discriminate Heq.
  - rewrite run_block by done. cbn [final_state log]. unfold history.
    rewrite app_assoc. intros Heq.
    apply first_stdout_write in Heq as [pre' Heq];
      [|apply no_stdout_before_print | done].
    pose proof (print_events_only (seq 0 (Z.to_nat (atoi arg)))) as Hall.
    rewrite Heq in Hall. apply Forall_app in Hall as [_ Hall].
    by apply Forall_cons in Hall as [_ Hall].
  - rewrite run_negative by done. cbn [final_state log]. intros Heq. exfalso.
    destruct pre as [|e0 [|e1 [|e2 pre]]]; discriminate Heq.
Qed.

Lemma after_output_only_loads_and_prints_witness :
  Forall (λ e, is_print_event e = true)
    (drop 9 (log (final_state (run (λ _, 7) ["fibonacci"; "3"])))).
Proof.
  apply (after_output_only_loads_and_prints (λ _, 7) ["fibonacci"; "3"]
           (take 8 (log (final_state (run (λ _, 7) ["fibonacci"; "3"]))))
           ("0" +:+ newline)).
  by vm_compute.
Defined.

(** ** Further properties: values and edge cases *)

Section Values.

Lemma Fib_bounds n : 0 ≤ Fib n ∧ 0 ≤ Fib (S n).
Proof.
  induction n as [|n [IH0 IH1]]; [done |].
  split; [done |]. rewrite Fib_step. lia.
Qed.

Lemma Fib_mono (i j : nat) : (i ≤ j)%nat → Fib i ≤ Fib j.
Proof.
  induction 1 as [|j _ IH]; [lia |].
  etrans; [exact IH |].
  destruct j as [|j]; [done |]. rewrite Fib_step.
  pose proof (Fib_bounds j). lia.
Qed.

Lemma decimal_nonneg x :
  0 ≤ x → decimal x = NilZero.string_of_uint (N.to_uint (Z.to_N x)).
Proof. intros Hx. destruct x as [|p|p]; [done | done | lia]. Qed.

Lemma request_size_wraps n :
  - 2 ^ 31 ≤ n < 0 →
  to_size (to_size n * sizeof_long) = 2 ^ 64 + n * sizeof_long.
Proof.
  unfold to_size, wrap_unsigned, size_bits, sizeof_long. intros H.
  replace (n mod 2 ^ 64) with (n + 2 ^ 64).
  2:{ apply Z.mod_unique with (q := -1); lia. }
  symmetry. apply Z.mod_unique with (q := 7); lia.
Qed.

End Values.

(** X4. Asking for more elements only appends: for 2 <= N <= M the
    stdout of the run for N is an initial part of the stdout of the run
    for M, line by line, and so are the progress lines on stderr. *)
Theorem shorter_run_is_prefix junk1 junk2 prog1 prog2 arg1 arg2 :
  2 ≤ atoi arg1 →
  atoi arg1 ≤ atoi arg2 →
  let r1 := run junk1 [prog1; arg1] in
  let r2 := run junk2 [prog2; arg2] in
  (∃ rest, stdout_of r2 = stdout_of r1 +:+ rest) ∧
  lines (stdout_of r1) `prefix_of` lines (stdout_of r2) ∧
  lines (stderr_of r1) `prefix_of` lines (stderr_of r2).
Proof.
  intros H1 H12 r1 r2. unfold r1, r2.
  set (n := Z.to_nat (atoi arg1)). set (m := Z.to_nat (atoi arg2)).
  assert (Hm : m = (n + (m - n))%nat) by lia.
  rewrite !lines_stdout_run, !lines_stderr_run, !stdout_run by lia.
  fold n m. split; [|split].
  - exists (unlines (printed <$> seq n (m - n))).
    rewrite Hm at 1. by rewrite seq_app, fmap_app, unlines_app.
  - exists (printed <$> seq n (m - n)).
    rewrite Hm at 1. by rewrite seq_app, fmap_app.
  - exists (progress <$> seq n (m - n)).
    replace (m - 2)%nat with ((n - 2) + (m - n))%nat by lia.
    rewrite seq_app, fmap_app. do 3 f_equal. lia.
Qed.

Lemma shorter_run_is_prefix_witness :
  2 ≤ atoi "3" ∧ atoi "3" ≤ atoi "6" ∧
  lines (stdout_of (run (λ _, 0) ["fibonacci"; "3"]))
    `prefix_of` lines (stdout_of (run (λ _, 1) ["fib"; "6"])).
Proof.
  split; [by vm_compute |]. split; [by vm_compute |].
  destruct (shorter_run_is_prefix (λ _, 0) (λ _, 1) "fibonacci" "fib" "3" "6")
    as (_ & H & _); [by vm_compute | by vm_compute | exact H].
Defined.

(** X5. With a single argument N >= 2, line [i] of stdout shows the
    true Fibonacci number [F i] exactly for the indices [i <= 93]
    ([F 93] is the last one below [2^64]), and element [i] of the array
    holds [F i] exactly for [i <= 92] ([F 92] is the last one that fits
    a signed [long]). *)
Theorem exact_up_to_the_type_bound junk prog arg (i : nat) :
  2 ≤ atoi arg →
  Z.of_nat i < atoi arg →
  let r := run junk [prog; arg] in
  (stdout_value r i = Some (Fib i) ↔ (i ≤ 93)%nat) ∧
  ((i ≤ 93)%nat → lines (stdout_of r) !! i = Some (decimal (Fib i))) ∧
  (block (final_state r) !! i = Some (Fib i) ↔ (i ≤ 92)%nat).
Proof.
  intros HN Hi r. unfold r.
  rewrite stdout_value_run, stdout_line_run, block_run by lia.
  rewrite fibw_residue.
  pose proof (Fib_bounds i) as [Hpos _].
  assert (H93 : Fib 93 < 2 ^ 64) by (by vm_compute).
  assert (H94 : 2 ^ 64 ≤ Fib 94) by (by vm_compute).
  assert (H92 : Fib 92 ≤ LONG_MAX) by (by vm_compute).
  assert (H93' : LONG_MAX < Fib 93) by (by vm_compute).
  assert (Hsmall : (i ≤ 93)%nat → Fib i mod 2 ^ 64 = Fib i).
  { intros Hle. pose proof (Fib_mono i 93 Hle). apply Z.mod_small. lia. }
  split; [|split].
  - split.
    + intros [= Heq]. destruct (decide (i ≤ 93)%nat) as [|Hgt]; [done |].
      pose proof (Fib_mono 94 i ltac:(lia)).
      pose proof (Z.mod_pos_bound (Fib i) (2 ^ 64) ltac:(lia)). lia.
    + intros Hle. by rewrite Hsmall.
  - intros Hle. f_equal. unfold printed, fmt_lu.
    rewrite fibw_residue. unfold to_ulong, wrap_unsigned, long_bits.
    rewrite Hsmall by done. by rewrite decimal_nonneg.
  - rewrite fibw_Fib. split.
    + intros [= Heq]. destruct (decide (i ≤ 92)%nat) as [|Hgt]; [done |].
      pose proof (Fib_mono 93 i ltac:(lia)).
      pose proof (to_long_range (Fib i)). lia.
    + intros Hle. pose proof (Fib_mono i 92 Hle).
      rewrite to_long_small; [done |]. unfold LONG_MIN, long_bits. lia.
Qed.

Lemma exact_up_to_the_type_bound_witness :
  2 ≤ atoi "94" ∧
  lines (stdout_of (run (λ _, 0) ["fibonacci"; "94"])) !! 93%nat
  = Some "12200160415121876738" ∧
  Fib 93 = 12200160415121876738.
Proof.
  split; [by vm_compute |].
  destruct (exact_up_to_the_type_bound (λ _, 0) "fibonacci" "94" 93)
    as (_ & H & _); [by vm_compute | by vm_compute |].
  split; [|by vm_compute].
  rewrite H by lia. by vm_compute.
Defined.

(** X6. A run reaches [return 0] exactly when the argument count is not
    one or the single argument is not negative; this includes 0, 1 and
    any text that [atoi] reads as 0.  A run that does not (a negative
    argument: the seed store through the null pointer) has written
    nothing, neither to stdout nor to stderr. *)
Theorem run_completes_iff junk argv :
  (exit_status (run junk argv) = Some 0 ↔
   length argv ≠ 2%nat ∨ ∃ prog arg, argv = [prog; arg] ∧ 0 ≤ atoi arg) ∧
  (exit_status (run junk argv) ≠ Some 0 →
   exit_status (run junk argv) = None ∧
   stdout_of (run junk argv) = EmptyString ∧
   stderr_of (run junk argv) = EmptyString).
Proof.
  destruct (run_cases argv)
    as [Hlen|[(prog & arg & -> & HN)|(prog & arg & -> & HN)]].
  - rewrite run_usage by done. split; [|done].
    split; [by left | done].
  - rewrite run_block by done. split; [|done].
    split; [|done]. intros _. right. by exists prog, arg.
  - rewrite run_negative by done. split; [|done].
    split; [done |]. intros [?|(p & a & [= -> ->] & ?)]; [done | lia].
Qed.

(** X7. With one argument, the run depends on the argument only through
    its integer value, and not on the program name: two invocations
    whose arguments [atoi] reads as the same number have the same
    history, output and outcome. *)
Theorem run_depends_on_value_only junk1 junk2 prog1 prog2 arg1 arg2 :
  atoi arg1 = atoi arg2 →
  run junk1 [prog1; arg1] = run junk2 [prog2; arg2].
Proof.
  intros Heq. destruct (decide (0 ≤ atoi arg1)) as [HN|HN].
  - rewrite !run_block by lia. by rewrite Heq.
  - rewrite !run_negative by lia. by rewrite Heq.
Qed.

Lemma run_depends_on_value_only_witness :
  atoi "7" = atoi "  +7 numbers" ∧
  run (λ _, 0) ["fibonacci"; "7"] = run (λ _, 1) ["./fib"; "  +7 numbers"].
Proof.
  split; [by vm_compute |].
  apply (run_depends_on_value_only (λ _, 0) (λ _, 1)). by vm_compute.
Defined.

(** X8. Diagnostics never reach stdout: for every argument vector,
    stdout consists of complete lines of decimal digits only, and it is
    empty unless there is a single argument of at least 1. *)
Theorem stdout_is_always_decimal_lines junk argv :
  let out := stdout_of (run junk argv) in
  unterminated out = EmptyString ∧
  Forall (λ l, is_decimal l = true) (lines out) ∧
  (out ≠ EmptyString → ∃ prog arg, argv = [prog; arg] ∧ 1 ≤ atoi arg).
Proof.
  intros out. unfold out.
  destruct (run_cases argv)
    as [Hlen|[(prog & arg & -> & HN)|(prog & arg & -> & HN)]].
  - by rewrite run_usage.
  - unfold stdout_of. rewrite run_block by done. cbn [final_state log].
    rewrite stdout_history. split; [|split].
    + unfold unterminated.
      by rewrite split_lines_unlines by apply printed_no_newline.
    + rewrite lines_unlines by apply printed_no_newline.
      apply Forall_fmap, Forall_forall. intros i _. apply fmt_lu_decimal.
    + intros Hne. exists prog, arg. split; [done |].
      destruct (decide (1 ≤ atoi arg)) as [|H0]; [done |].
      by replace (Z.to_nat (atoi arg)) with 0%nat in Hne by lia.
  - by rewrite run_negative.
Qed.

Lemma stdout_is_always_decimal_lines_witness :
  stdout_of (run (λ _, 0) ["fibonacci"; "1"]) ≠ EmptyString ∧
  ∃ prog arg, ["fibonacci"; "1"] = [prog; arg] ∧ 1 ≤ atoi arg.
Proof.
  split; [by vm_compute |].
  apply (stdout_is_always_decimal_lines (λ _, 0) ["fibonacci"; "1"]).
  by vm_compute.
Defined.

(** X9. A negative argument N makes the size computation
    [max_index*sizeof(long)] wrap to [2^64 + 8*N] bytes; [malloc]
    refuses, the block has no cell, and the run stops at the first seed
    store [fib[0] = 0]: nothing is written and there is no exit
    status. *)
Theorem negative_request_stops_at_first_store junk prog arg :
  atoi arg < 0 →
  run junk [prog; arg]
  = Fault {| block := []; outside := ∅;
             log := [EvMalloc (2 ^ 64 + atoi arg * sizeof_long);
                     EvStore 0 0] |}.
Proof.
  intros HN. pose proof (atoi_range arg) as Hr.
  rewrite run_negative by lia.
  by rewrite request_size_wraps by lia.
Qed.

Lemma negative_request_stops_at_first_store_witness :
  atoi "-3" < 0 ∧
  run (λ _, 0) ["fibonacci"; "-3"]
  = Fault {| block := []; outside := ∅;
             log := [EvMalloc 18446744073709551592; EvStore 0 0] |}.
Proof.
  split; [by vm_compute |].
  rewrite (negative_request_stops_at_first_store (λ _, 0) "fibonacci" "-3");
    by vm_compute.
Defined.

Lemma run_completes_iff_witness :
  exit_status (run (λ _, 0) ["fibonacci"; "-1"]) = None ∧
  stdout_of (run (λ _, 0) ["fibonacci"; "-1"]) = EmptyString ∧
  stderr_of (run (λ _, 0) ["fibonacci"; "-1"]) = EmptyString.
Proof.
  apply (proj2 (run_completes_iff (λ _, 0) ["fibonacci"; "-1"])).
  by vm_compute.
Defined.

(** X10. For every single argument N >= 0, also 0 and 1, the run ends
    with status 0, stdout has exactly the N lines [F 0 mod 2^64], ...,
    [F (N-1) mod 2^64] in decimal, and stderr has exactly the progress
    lines for the indices 2..N-1: N = 1 prints the one line [0], N = 0
    prints nothing, and neither writes a progress line. *)
Theorem output_for_any_size junk prog arg :
  0 ≤ atoi arg →
  let r := run junk [prog; arg] in
  exit_status r = Some 0 ∧
  lines (stdout_of r)
  = (λ i : nat, decimal (Fib i mod 2 ^ long_bits))
      <$> seq 0 (Z.to_nat (atoi arg)) ∧
  unterminated (stdout_of r) = EmptyString ∧
  lines (stderr_of r)
  = (λ i : nat, "Calculating index " +:+ decimal (Z.of_nat i))
      <$> seq 2 (Z.to_nat (atoi arg) - 2) ∧
  unterminated (stderr_of r) = EmptyString.
Proof.
  intros HN r. pose proof (atoi_range arg) as Hr.
  unfold r, stdout_of, stderr_of. rewrite run_block by done.
  cbn [exit_status final_state log].
  rewrite stdout_history, stderr_history.
  set (n := Z.to_nat (atoi arg)).
  assert (Hnl : Forall (λ s, no_newline s = true) (progress <$> seq 2 (n - 2))).
  { apply progress_no_newline. lia. }
  split; [done |]. split; [|split; [|split]].
  - rewrite lines_unlines by apply printed_no_newline.
    apply list_fmap_ext. intros k i _. unfold printed, fmt_lu.
    rewrite fibw_residue, decimal_nonneg; [done |].
    apply Z.mod_pos_bound. unfold long_bits. lia.
  - unfold unterminated.
    by rewrite split_lines_unlines by apply printed_no_newline.
  - rewrite lines_unlines by done.
    apply list_fmap_ext. intros k i [-> Hi]%lookup_seq.
    unfold progress, progress_line. by rewrite fmt_d_small by lia.
  - unfold unterminated. by rewrite split_lines_unlines by done.
Qed.

Lemma output_for_any_size_witness :
  0 ≤ atoi "1" ∧
  exit_status (run (λ _, 7) ["fibonacci"; "1"]) = Some 0 ∧
  lines (stdout_of (run (λ _, 7) ["fibonacci"; "1"])) = ["0"] ∧
  lines (stderr_of (run (λ _, 7) ["fibonacci"; "1"])) = [].
Proof.
  split; [by vm_compute |].
  destruct (output_for_any_size (λ _, 7) "fibonacci" "1")
    as (H0 & H1 & _ & H2 & _); [by vm_compute |].
  split; [exact H0 |]. split; [by rewrite H1 | by rewrite H2].
Defined.
